(** * PeLib ImageLoader: a shallow embedding of the page store, the
    virtual-address accessor, section mapping, relocation and the loader
    error of [PeLib::ImageLoader] (retdec, ImageLoader.h). *)

From Stdlib Require Import ZArith Lia.
From stdpp Require Import base list numbers.

Open Scope Z_scope.

(** ** Constants (PeLibAux.h) *)

Definition PELIB_PAGE_SIZE : Z := 4096.
Definition PELIB_PAGE_SIZE_SHIFT : Z := 12.
Definition PELIB_PAGE_SIZE_N : nat := 4096%nat.

(** 32-bit unsigned arithmetic *)
Definition u32 (x : Z) : Z := x mod 2^32.
Definition u32_not (x : Z) : Z := Z.lxor (u32 x) (2^32 - 1).

(** ** PELIB_FILE_PAGE (ImageLoader.h, lines 63-114)

    The buffer is a [std::vector<std::uint8_t>]; bytes are [Z] values.
    Sizes and offsets are [size_t]: [nat]. *)

Record PELIB_FILE_PAGE := mkPage {
  buffer : list Z;
  isInvalidPage : bool;
  isZeroPage : bool
}.

(** [PELIB_FILE_PAGE()] *)
Definition PELIB_FILE_PAGE_new : PELIB_FILE_PAGE :=
  mkPage [] true false.

(** [std::vector::resize(n)]: keeps the prefix, value-initialises the rest *)
Definition vector_resize (n : nat) (v : list Z) : list Z :=
  take n v ++ replicate (n - length v) 0.

(** [memcpy(dst.data() + offset, src, length(src))] on a buffer large enough *)
Definition memcpy_at (dst : list Z) (offset : nat) (src : list Z) : list Z :=
  take offset dst ++ src ++ drop (offset + length src) dst.

(** [PELIB_FILE_PAGE::writeToPage(data, offset, length)]; the source
    pointer and its length are the list [data]. *)
Definition page_writeToPage (p : PELIB_FILE_PAGE) (data : list Z) (offset : nat)
  : PELIB_FILE_PAGE :=
  if decide (offset < PELIB_PAGE_SIZE_N)%nat then
    let buf := if decide (length (buffer p) = PELIB_PAGE_SIZE_N)
               then buffer p else vector_resize PELIB_PAGE_SIZE_N (buffer p) in
    let len := if decide (PELIB_PAGE_SIZE_N < offset + length data)%nat
               then (PELIB_PAGE_SIZE_N - offset)%nat else length data in
    mkPage (memcpy_at buf offset (take len data)) (isInvalidPage p) (isZeroPage p)
  else p.

(** [PELIB_FILE_PAGE::setValidPage(data, length)].  The trailing
    [memset(buffer.data() + length, 0, PELIB_PAGE_SIZE - length)] is outside
    the buffer when [length > PELIB_PAGE_SIZE] (the [size_t] count wraps):
    that call has no defined result, [None]. *)
Definition page_setValidPage (p : PELIB_FILE_PAGE) (data : list Z)
  : option PELIB_FILE_PAGE :=
  let length := length data in
  if decide (PELIB_PAGE_SIZE_N < length)%nat then None else
  let p1 := page_writeToPage p data 0 in
  Some (mkPage (take length (buffer p1) ++ replicate (PELIB_PAGE_SIZE_N - length) 0)
               false false).

(** [PELIB_FILE_PAGE::setZeroPage()] *)
Definition page_setZeroPage (p : PELIB_FILE_PAGE) : PELIB_FILE_PAGE :=
  mkPage [] false true.

(** The page operations, as a caller can issue them. *)
Inductive page_op :=
  | OpSetValidPage (data : list Z)
  | OpSetZeroPage
  | OpWriteToPage (data : list Z) (offset : nat).

Definition page_step (p : PELIB_FILE_PAGE) (op : page_op) : option PELIB_FILE_PAGE :=
  match op with
  | OpSetValidPage data => page_setValidPage p data
  | OpSetZeroPage => Some (page_setZeroPage p)
  | OpWriteToPage data offset => Some (page_writeToPage p data offset)
  end.

Fixpoint run_page_ops (p : PELIB_FILE_PAGE) (ops : list page_op) : option PELIB_FILE_PAGE :=
  match ops with
  | [] => Some p
  | op :: ops' =>
      match page_step p op with
      | Some p' => run_page_ops p' ops'
      | None => None
      end
  end.

(** ** Alignment helpers (ImageLoader.h, lines 352-360), in [uint32_t] *)

Definition AlignToSize (ByteSize AlignSize : Z) : Z :=
  Z.land (u32 (ByteSize + u32 (AlignSize - 1))) (u32_not (AlignSize - 1)).

Definition BytesToPages (ByteSize : Z) : Z :=
  Z.shiftr ByteSize PELIB_PAGE_SIZE_SHIFT
  + (if decide (Z.land ByteSize (PELIB_PAGE_SIZE - 1) <> 0) then 1 else 0).

(** [signExtend32To64] (lines 362-365): the [uint32_t] read as [int32_t],
    widened to [int64_t], then read as [uint64_t]. *)
Definition signExtend32To64 (value32 : Z) : Z :=
  let int32 := if decide (value32 < 2^31) then value32 else value32 - 2^32 in
  int32 mod 2^64.

(** ** Headers (PeLibAux.h, the fields the loader reads) *)

Record PELIB_IMAGE_DATA_DIRECTORY := mkDataDir {
  VirtualAddress : Z;
  Size : Z
}.

Record PELIB_IMAGE_OPTIONAL_HEADER := mkOptionalHeader {
  Magic : Z;
  ImageBase : Z;
  SectionAlignment : Z;
  FileAlignment : Z;
  SizeOfImage : Z;
  SizeOfHeaders : Z;
  DllCharacteristics : Z;
  NumberOfRvaAndSizes : Z;
  DataDirectory : list PELIB_IMAGE_DATA_DIRECTORY
}.

(** [getDataDirRva] / [getDataDirSize] (lines 273-283).  Indexing the
    array is [DataDirectory !! index]: [None] is a read past its end. *)
Definition getDataDirRva (oh : PELIB_IMAGE_OPTIONAL_HEADER) (dataDirIndex : nat) : option Z :=
  if decide (Z.of_nat dataDirIndex < NumberOfRvaAndSizes oh)
  then VirtualAddress <$> DataDirectory oh !! dataDirIndex
  else Some 0.

Definition getDataDirSize (oh : PELIB_IMAGE_OPTIONAL_HEADER) (dataDirIndex : nat) : option Z :=
  if decide (Z.of_nat dataDirIndex < NumberOfRvaAndSizes oh)
  then Size <$> DataDirectory oh !! dataDirIndex
  else Some 0.

Record PELIB_IMAGE_FILE_HEADER := mkFileHeader {
  Machine : Z;
  NumberOfSections : Z;
  Characteristics : Z
}.

(** [PELIB_SECTION_HEADER]; the fields carry an [sh_] prefix because
    [VirtualAddress] is already the data-directory field. *)
Record PELIB_SECTION_HEADER := mkSectionHeader {
  sh_VirtualAddress : Z;
  sh_VirtualSize : Z;
  sh_PointerToRawData : Z;
  sh_SizeOfRawData : Z;
  sh_Characteristics : Z
}.

(** ** LoaderError: the causes listed in the error taxonomy *)

Inductive LoaderError :=
  | LDR_ERROR_NONE
  | LDR_ERROR_MZ_HEADER
  | LDR_ERROR_NT_HEADER
  | LDR_ERROR_MACHINE
  | LDR_ERROR_SECTION_TABLE
  | LDR_ERROR_NOT_LOADABLE
  | LDR_ERROR_RELOC_MALFORMED
  | LDR_ERROR_RELOC_TYPE.

#[global] Instance LoaderError_eq_dec : EqDecision LoaderError.
Proof. solve_decision. Defined.

(** ** The [ImageLoader] object (lines 376-393) *)

Record ImageLoader := mkLoader {
  sections : list PELIB_SECTION_HEADER;
  pages : list PELIB_FILE_PAGE;
  rawFileData : list Z;
  fileHeader : PELIB_IMAGE_FILE_HEADER;
  optionalHeader : PELIB_IMAGE_OPTIONAL_HEADER;
  ldrError : LoaderError;
  ntHeadersSizeCheck : bool;
  sizeofImageMustMatch : bool;
  appContainerCheck : bool;
  is64BitWindows : bool;
  loadArmImages : bool
}.

Definition set_pages (st : ImageLoader) (ps : list PELIB_FILE_PAGE) : ImageLoader :=
  mkLoader (sections st) ps (rawFileData st) (fileHeader st) (optionalHeader st)
    (ldrError st) (ntHeadersSizeCheck st) (sizeofImageMustMatch st)
    (appContainerCheck st) (is64BitWindows st) (loadArmImages st).

Definition set_ldrError (st : ImageLoader) (e : LoaderError) : ImageLoader :=
  mkLoader (sections st) (pages st) (rawFileData st) (fileHeader st) (optionalHeader st)
    e (ntHeadersSizeCheck st) (sizeofImageMustMatch st)
    (appContainerCheck st) (is64BitWindows st) (loadArmImages st).

Definition set_optionalHeader (st : ImageLoader) (oh : PELIB_IMAGE_OPTIONAL_HEADER) : ImageLoader :=
  mkLoader (sections st) (pages st) (rawFileData st) (fileHeader st) oh
    (ldrError st) (ntHeadersSizeCheck st) (sizeofImageMustMatch st)
    (appContainerCheck st) (is64BitWindows st) (loadArmImages st).

Definition getSizeOfImage (st : ImageLoader) : Z := SizeOfImage (optionalHeader st).

(** [getSizeOfImageAligned] (lines 243-246) *)
Definition getSizeOfImageAligned (st : ImageLoader) : Z :=
  AlignToSize (SizeOfImage (optionalHeader st)) PELIB_PAGE_SIZE.

(** [loaderError()] *)
Definition loaderError (st : ImageLoader) : LoaderError := ldrError st.

(** Modelled from the spec: the body of [setLoaderError] is not in the
    sources.  "Sticky first-failure indicator ... set via a setter that
    records the first call only": the value is stored only while no
    failure has been recorded. *)
Definition setLoaderError (st : ImageLoader) (ldrErr : LoaderError) : ImageLoader :=
  if decide (ldrError st = LDR_ERROR_NONE) then set_ldrError st ldrErr else st.

(** ** Virtual-address accessor

    Modelled from the spec: the bodies of [readImage], [writeImage],
    [readWriteImage], [readFromPage] and [writeToPage] are not in the
    sources.  The spec: the range is cut at the aligned image size
    ("fewer than requested near the end of the image, never past it");
    [pageIndex = rva >> 12], [offsetInPage = rva & 0xFFF]; the range is
    split per page and each piece handed to one primitive, a [READWRITE]
    function, as in the declaration on line 303; reading a page without
    a buffer (an invalid or zero page) yields zero bytes.  The caller's
    buffer is a list and a position in it; a page missing from [pages] is
    an access outside the allocated image, [None]. *)

Definition READWRITE : Type :=
  PELIB_FILE_PAGE -> list Z -> nat -> nat -> nat -> PELIB_FILE_PAGE * list Z.

Definition readFromPage : READWRITE :=
  fun page buf bufPos offsetInPage bytesInPage =>
    (page, memcpy_at buf bufPos
             (match buffer page with
              | [] => replicate bytesInPage 0
              | b => take bytesInPage (drop offsetInPage b)
              end)).


Fixpoint readWriteLoop (fuel : nat) (ReadWrite : READWRITE) (ps : list PELIB_FILE_PAGE)
    (buf : list Z) (bufPos pageIndex : nat) (rva rvaEnd bytesRead : Z)
    : option (Z * list Z * list PELIB_FILE_PAGE) :=
  match fuel with
  | O => None
  | S fuel' =>
      if decide (rva < rvaEnd) then
        match ps !! pageIndex with
        | None => None
        | Some page =>
            let offsetInPage := Z.land rva (PELIB_PAGE_SIZE - 1) in
            let bytesInPage := Z.min (PELIB_PAGE_SIZE - offsetInPage) (rvaEnd - rva) in
            let '(page', buf') :=
              ReadWrite page buf bufPos (Z.to_nat offsetInPage) (Z.to_nat bytesInPage) in
            readWriteLoop fuel' ReadWrite (<[pageIndex := page']> ps) buf'
              (bufPos + Z.to_nat bytesInPage) (S pageIndex)
              (rva + bytesInPage) rvaEnd (bytesRead + bytesInPage)
        end
      else Some (bytesRead, buf, ps)
  end.

Definition readWriteImage (st : ImageLoader) (buf : list Z) (rva bytesToRead : Z)
    (ReadWrite : READWRITE) : option (Z * list Z * list PELIB_FILE_PAGE) :=
  let rvaEnd := Z.min (rva + bytesToRead) (getSizeOfImageAligned st) in
  if decide (rva < rvaEnd) then
    readWriteLoop (S (Z.to_nat (rvaEnd - rva))) ReadWrite (pages st) buf 0
      (Z.to_nat (Z.shiftr rva PELIB_PAGE_SIZE_SHIFT)) rva rvaEnd 0
  else Some (0, buf, pages st).

(** [readImage(buffer, rva, bytesToRead)]: bytes transferred and the
    filled buffer. *)
Definition readImage (st : ImageLoader) (buf : list Z) (rva bytesToRead : Z)
    : option (Z * list Z) :=
  match readWriteImage st buf rva bytesToRead readFromPage with
  | Some (n, buf', _) => Some (n, buf')
  | None => None
  end.


(** ** Relocation processor

    Modelled from the spec: the bodies of [relocateImage],
    [processImageRelocations] and [writeNewImageBase] are not in the
    sources.  The spec: [delta = newImageBase - currentImageBase] (in
    [uint64_t]); the base-relocation directory (data directory 5) is a
    sequence of blocks, each a page RVA, a block size and 16-bit entries
    (type in the top 4 bits, offset in the page in the low 12 bits); HIGHLOW
    adds [delta] truncated to 32 bits to the 4-byte value at the target,
    DIR64 adds [delta] to the 8-byte value, HIGH and LOW add the matching
    16-bit half of [delta] to a 16-bit value; every read and write goes
    through [readImage] / [writeImage]; a block running past the directory
    size, or shorter than its header, ends the walk with an error, an entry
    of an unknown type is skipped with an error, neither aborts the fixups
    already found; when no error was met the new base is written into the
    optional header, and the result says whether no error was met.  The
    paired HIGHADJ entry and the IA64 immediate are not modelled here: they
    fall in the unknown-type branch. *)



Definition sublistZ (l : list Z) (off n : Z) : list Z :=
  take (Z.to_nat n) (drop (Z.to_nat off) l).











(** ** Section mapper

    Modelled from the spec: the body of [captureImageSection] is not in
    the sources.  The spec: the destination pages start at page
    [virtualAddress >> 12]; [min(sizeOfRawData, virtualSize)] bytes of the
    file at [pointerToRawData] (as many of them as the file holds) are
    copied into consecutive pages, each made valid by [setValidPage]; when
    the virtual size exceeds the raw size the pages after the copied data,
    up to the page-rounded virtual size, are made zero pages; no page
    outside [pages] is written.  Page protection ([characteristics]) and
    the returned count are not modelled. *)

Fixpoint setValidPages (ps : list PELIB_FILE_PAGE) (pageIndex : nat) (data : list Z)
    (count : nat) : list PELIB_FILE_PAGE :=
  match count with
  | O => ps
  | S count' =>
      let ps' :=
        match ps !! pageIndex with
        | Some p =>
            match page_setValidPage p (take PELIB_PAGE_SIZE_N data) with
            | Some p' => <[pageIndex := p']> ps
            | None => ps
            end
        | None => ps
        end in
      setValidPages ps' (S pageIndex) (drop PELIB_PAGE_SIZE_N data) count'
  end.

Fixpoint setZeroPages (ps : list PELIB_FILE_PAGE) (pageIndex : nat) (count : nat)
    : list PELIB_FILE_PAGE :=
  match count with
  | O => ps
  | S count' =>
      let ps' :=
        match ps !! pageIndex with
        | Some p => <[pageIndex := page_setZeroPage p]> ps
        | None => ps
        end in
      setZeroPages ps' (S pageIndex) count'
  end.

Definition captureImageSection (st : ImageLoader) (fileData : list Z)
    (virtualAddress virtualSize pointerToRawData sizeOfRawData characteristics : Z)
    (isImageHeader : bool) : ImageLoader :=
  let sizeToCopy := Z.min sizeOfRawData virtualSize in
  let data := sublistZ fileData pointerToRawData sizeToCopy in
  let pageIndex := Z.to_nat (Z.shiftr virtualAddress PELIB_PAGE_SIZE_SHIFT) in
  let validCount := Z.to_nat (BytesToPages (Z.of_nat (length data))) in
  let ps1 := setValidPages (pages st) pageIndex data validCount in
  let ps2 :=
    if decide (sizeOfRawData < virtualSize)
    then setZeroPages ps1 (pageIndex + validCount)
           (Z.to_nat (BytesToPages virtualSize) - validCount)
    else ps1 in
  set_pages st ps2.

(** ** Loader configuration, loadability validator and [Load]

    Modelled from the spec: the constructor, [Load], [captureImageSections],
    [loadImageAsIs] and [isImageLoadable] have no body in the sources.
    The byte-level decoding of the DOS and NT headers is represented by its
    outcome, a [PeFile]: whether the DOS header and the NT headers were
    accepted, and the captured headers and section table. *)

Record LoaderConfiguration := mkLoaderConfiguration {
  cfg_ntHeadersSizeCheck : bool;
  cfg_sizeofImageMustMatch : bool;
  cfg_appContainerCheck : bool;
  cfg_is64BitWindows : bool;
  cfg_loadArmImages : bool
}.

Record PeFile := mkPeFile {
  pe_fileData : list Z;
  pe_dosHeaderValid : bool;
  pe_ntHeadersValid : bool;
  pe_fileHeader : PELIB_IMAGE_FILE_HEADER;
  pe_optionalHeader : PELIB_IMAGE_OPTIONAL_HEADER;
  pe_sections : list PELIB_SECTION_HEADER
}.

Definition ERROR_NONE : Z := 0.
Definition ERROR_INVALID_FILE : Z := 5.

Definition empty_optional_header : PELIB_IMAGE_OPTIONAL_HEADER :=
  mkOptionalHeader 0 0 0 0 0 0 0 0 [].

(** [ImageLoader(loaderFlags)], with the flags already decoded *)
Definition ImageLoader_new (cfg : LoaderConfiguration) : ImageLoader :=
  mkLoader [] [] [] (mkFileHeader 0 0 0) empty_optional_header LDR_ERROR_NONE
    (cfg_ntHeadersSizeCheck cfg) (cfg_sizeofImageMustMatch cfg)
    (cfg_appContainerCheck cfg) (cfg_is64BitWindows cfg) (cfg_loadArmImages cfg).

Definition PELIB_IMAGE_NT_OPTIONAL_HDR64_MAGIC : Z := 523.
Definition PELIB_IMAGE_FILE_MACHINE_I386 : Z := 332.
Definition PELIB_IMAGE_FILE_MACHINE_AMD64 : Z := 34404.
Definition PELIB_IMAGE_FILE_MACHINE_IA64 : Z := 512.
Definition PELIB_IMAGE_FILE_MACHINE_ARMNT : Z := 452.
Definition PELIB_IMAGE_FILE_MACHINE_ARM64 : Z := 43620.

Section Validator.

(** The app-container check ([checkForBadAppContainer], line 343) and the
    legacy-architecture list ([isLegacyImageArchitecture], line 340) are
    declared without a body, and the spec does not describe them.  The
    app-container check tests a flag of the optional header (the comment of
    [appContainerCheck], line 391): it is a function of that header.
    [isImageLoadable] is a [const] member and the checks are not, so its
    verdict is a function of the stored headers and configuration. *)
Variable checkForBadAppContainer : PELIB_IMAGE_OPTIONAL_HEADER -> bool.
Variable isLegacyImageArchitecture : Z -> bool.

Definition checkForValid64BitMachine (st : ImageLoader) : bool :=
  let m := Machine (fileHeader st) in
  bool_decide (m = PELIB_IMAGE_FILE_MACHINE_AMD64 \/ m = PELIB_IMAGE_FILE_MACHINE_IA64)
  || (loadArmImages st && bool_decide (m = PELIB_IMAGE_FILE_MACHINE_ARM64)).

Definition checkForValid32BitMachine (st : ImageLoader) : bool :=
  let m := Machine (fileHeader st) in
  bool_decide (m = PELIB_IMAGE_FILE_MACHINE_I386) || isLegacyImageArchitecture m
  || (loadArmImages st && bool_decide (m = PELIB_IMAGE_FILE_MACHINE_ARMNT)).

Definition is_power_of_two (x : Z) : bool := bool_decide (0 < x /\ Z.land x (x - 1) = 0).

Definition sectionEnd (st : ImageLoader) (s : PELIB_SECTION_HEADER) : Z :=
  sh_VirtualAddress s
  + AlignToSize (sh_VirtualSize s) (SectionAlignment (optionalHeader st)).

(** The checks of the loadability validator, each failing one with its
    cause, in order. *)
Definition loadabilityChecks (st : ImageLoader) : list LoaderError :=
  let oh := optionalHeader st in
  let is64 := bool_decide (Magic oh = PELIB_IMAGE_NT_OPTIONAL_HDR64_MAGIC) in
  (if (if is64 then is64BitWindows st && checkForValid64BitMachine st
       else checkForValid32BitMachine st)
   then [] else [LDR_ERROR_MACHINE])
  ++ (if appContainerCheck st && checkForBadAppContainer oh
      then [LDR_ERROR_NOT_LOADABLE] else [])
  ++ (if is_power_of_two (SectionAlignment oh) && is_power_of_two (FileAlignment oh)
         && bool_decide (FileAlignment oh <= SectionAlignment oh)
      then [] else [LDR_ERROR_NOT_LOADABLE])
  ++ (if forallb (fun s => bool_decide (sectionEnd st s <= getSizeOfImageAligned st))
                 (sections st)
      then [] else [LDR_ERROR_SECTION_TABLE])
  ++ (if sizeofImageMustMatch st then
        match rev (sections st) with
        | s :: _ => if decide (SizeOfImage oh = sectionEnd st s) then []
                    else [LDR_ERROR_NOT_LOADABLE]
        | [] => []
        end
      else []).

(** [isImageLoadable() const] *)
Definition isImageLoadable (st : ImageLoader) : bool :=
  bool_decide (loadabilityChecks st = []).

End Validator.

Definition loadImageAsIs (st : ImageLoader) (fileData : list Z) : ImageLoader :=
  mkLoader (sections st) (pages st) fileData (fileHeader st) (optionalHeader st)
    (ldrError st) (ntHeadersSizeCheck st) (sizeofImageMustMatch st)
    (appContainerCheck st) (is64BitWindows st) (loadArmImages st).

Definition captureHeaders (st : ImageLoader) (f : PeFile) : ImageLoader :=
  mkLoader (pe_sections f) (pages st) (rawFileData st) (pe_fileHeader f) (pe_optionalHeader f)
    (ldrError st) (ntHeadersSizeCheck st) (sizeofImageMustMatch st)
    (appContainerCheck st) (is64BitWindows st) (loadArmImages st).

(** The header page, then every section in file order *)
Definition captureImageSections (st : ImageLoader) (fileData : list Z) : ImageLoader :=
  let sizeOfHeaders := SizeOfHeaders (optionalHeader st) in
  let st1 := captureImageSection st fileData 0 sizeOfHeaders 0 sizeOfHeaders 0 true in
  fold_left (fun acc s =>
      captureImageSection acc fileData (sh_VirtualAddress s) (sh_VirtualSize s)
        (sh_PointerToRawData s) (sh_SizeOfRawData s) (sh_Characteristics s) false)
    (sections st1) st1.

(** [Load(fileData, loadHeadersOnly)] *)
Definition Load (checkForBadAppContainer : PELIB_IMAGE_OPTIONAL_HEADER -> bool)
    (isLegacyImageArchitecture : Z -> bool) (st0 : ImageLoader) (f : PeFile)
    (loadHeadersOnly : bool) : Z * ImageLoader :=
  if negb (pe_dosHeaderValid f) then
    (ERROR_INVALID_FILE, loadImageAsIs (setLoaderError st0 LDR_ERROR_MZ_HEADER) (pe_fileData f))
  else if negb (pe_ntHeadersValid f) then
    (ERROR_INVALID_FILE, loadImageAsIs (setLoaderError st0 LDR_ERROR_NT_HEADER) (pe_fileData f))
  else
    let st1 := captureHeaders st0 f in
    let st2 := fold_left setLoaderError
                 (loadabilityChecks checkForBadAppContainer isLegacyImageArchitecture st1) st1 in
    let st3 := set_pages st2 (replicate (Z.to_nat (BytesToPages (getSizeOfImageAligned st2)))
                                        PELIB_FILE_PAGE_new) in
    if loadHeadersOnly then (ERROR_NONE, st3)
    else (ERROR_NONE, captureImageSections st3 (pe_fileData f)).

(** ** Views and well-formedness used by the statements *)











(** The page invariant: never zero and invalid at once; a valid page holds
    a buffer of one page. *)
Definition page_inv (p : PELIB_FILE_PAGE) : Prop :=
  ~ (isZeroPage p = true /\ isInvalidPage p = true)
  /\ (isZeroPage p = false -> isInvalidPage p = false -> length (buffer p) = 4096%nat).




Definition ceil_div (a b : Z) : Z := (a + b - 1) / b.

(** ** Sample images *)

(** A page holding [l] followed by zeros *)
Definition page_of (l : list Z) : PELIB_FILE_PAGE :=
  mkPage (l ++ replicate (PELIB_PAGE_SIZE_N - length l) 0) false false.

(** An optional header of a 32-bit image based at 0x00400000, two pages
    large, whose relocation directory is [relocSize] bytes at RVA 0 *)
Definition sample_optional_header (relocSize : Z) : PELIB_IMAGE_OPTIONAL_HEADER :=
  mkOptionalHeader 267 4194304 4096 512 8192 1024 0 16
    (replicate 5 (mkDataDir 0 0) ++ [mkDataDir 0 relocSize] ++ replicate 10 (mkDataDir 0 0)).

(** One relocation block for page 0x1000 with a HIGHLOW entry at offset 4;
    the value at RVA 0x1004 is 0x00401000. *)
Definition highlow_image : ImageLoader :=
  mkLoader [] [page_of [0; 16; 0; 0; 10; 0; 0; 0; 4; 48]; page_of [0; 0; 0; 0; 0; 16; 64; 0]] []
    (mkFileHeader PELIB_IMAGE_FILE_MACHINE_I386 1 0) (sample_optional_header 10)
    LDR_ERROR_NONE false false false false false.


Definition sample_config : LoaderConfiguration :=
  mkLoaderConfiguration false false false false false.

(** A file with 1024 bytes of headers and one section of 512 raw bytes at
    RVA 0x1000 *)
Definition sample_file : PeFile :=
  mkPeFile (replicate 1024 0 ++ replicate 512 7) true true
    (mkFileHeader PELIB_IMAGE_FILE_MACHINE_I386 1 0) (sample_optional_header 0)
    [mkSectionHeader 4096 512 1024 512 0].

(** A loader of three fresh pages for a 0x3000-byte image *)
Definition fresh_image : ImageLoader :=
  mkLoader [] (replicate 3 PELIB_FILE_PAGE_new) [] (mkFileHeader PELIB_IMAGE_FILE_MACHINE_I386 1 0)
    (mkOptionalHeader 267 4194304 4096 512 12288 1024 0 16 [])
    LDR_ERROR_NONE false false false false false.


(** * Properties *)

(** ** Helper lemmas *)

Lemma length_memcpy_at dst off src :
  (off + length src <= length dst)%nat -> length (memcpy_at dst off src) = length dst.
Proof.
  intros H. unfold memcpy_at. rewrite !length_app, length_take, length_drop. lia.
Qed.

Lemma page_writeToPage_flags p data off :
  isInvalidPage (page_writeToPage p data off) = isInvalidPage p
  /\ isZeroPage (page_writeToPage p data off) = isZeroPage p.
Proof. unfold page_writeToPage. case_decide; simpl; auto. Qed.

Lemma page_writeToPage_length p data off :
  (off < PELIB_PAGE_SIZE_N)%nat ->
  length (buffer (page_writeToPage p data off)) = PELIB_PAGE_SIZE_N.
Proof.
  intros Hoff. unfold page_writeToPage. rewrite decide_True by done. simpl.
  set (buf := if decide (length (buffer p) = PELIB_PAGE_SIZE_N) then buffer p
              else vector_resize PELIB_PAGE_SIZE_N (buffer p)).
  assert (Hb : length buf = PELIB_PAGE_SIZE_N).
  { subst buf. case_decide; [done|]. unfold vector_resize.
    rewrite length_app, length_take, length_replicate. unfold PELIB_PAGE_SIZE_N in *. lia. }
  rewrite length_memcpy_at; [done|]. rewrite length_take, Hb.
  case_decide; unfold PELIB_PAGE_SIZE_N in *; lia.
Qed.

Lemma page_setValidPage_spec p data p' :
  page_setValidPage p data = Some p' ->
  (length data <= PELIB_PAGE_SIZE_N)%nat
  /\ buffer p' = take (length data) (buffer (page_writeToPage p data 0))
                 ++ replicate (PELIB_PAGE_SIZE_N - length data) 0
  /\ isInvalidPage p' = false /\ isZeroPage p' = false.
Proof.
  unfold page_setValidPage. case_decide as Hl; [discriminate|].
  intros H; injection H as <-. split; [lia|]. done.
Qed.

Lemma page_step_inv p op p' : page_inv p -> page_step p op = Some p' -> page_inv p'.
Proof.
  intros [H1 H2] Hs. destruct op as [data| |data off]; simpl in Hs.
  - destruct (page_setValidPage_spec p data p' Hs) as (Hl & Hb & Hi & Hz).
    split; [rewrite Hz; intros [? _]; discriminate|]. intros _ _.
    rewrite Hb, length_app, length_take, length_replicate,
      page_writeToPage_length by (unfold PELIB_PAGE_SIZE_N; lia).
    unfold PELIB_PAGE_SIZE_N in *. lia.
  - injection Hs as <-. unfold page_inv; simpl. split; [intros [_ ?]; discriminate|].
    intros; discriminate.
  - injection Hs as <-. destruct (page_writeToPage_flags p data off) as [Hi Hz].
    split; [rewrite Hi, Hz; done|]. rewrite Hi, Hz. intros Hz' Hi'.
    destruct (decide (off < PELIB_PAGE_SIZE_N)%nat).
    + by apply page_writeToPage_length.
    + unfold page_writeToPage. rewrite decide_False by done. auto.
Qed.

Lemma run_page_ops_inv ops p p' : page_inv p -> run_page_ops p ops = Some p' -> page_inv p'.
Proof.
  revert p. induction ops as [|op ops IH]; intros p Hp Hr; simpl in Hr.
  - by injection Hr as <-.
  - destruct (page_step p op) as [q|] eqn:Hq; [|discriminate].
    eapply IH; [eapply page_step_inv|]; eauto.
Qed.

(** ** Byte-level behaviour of the accessor *)

Lemma nth_memcpy_at dst pos src j :
  (pos + length src <= length dst)%nat ->
  nth j (memcpy_at dst pos src) 0 =
  if decide (pos <= j < pos + length src)%nat then nth (j - pos) src 0 else nth j dst 0.
Proof.
  intros H. unfold memcpy_at. case_decide.
  - rewrite app_nth2 by (rewrite length_take; lia). rewrite length_take.
    rewrite app_nth1 by lia. f_equal. lia.
  - destruct (decide (j < pos)%nat).
    + rewrite app_nth1 by (rewrite length_take; lia). rewrite nth_firstn.
      destruct (Nat.ltb_spec j pos); [done | lia].
    + rewrite app_nth2 by (rewrite length_take; lia). rewrite length_take.
      rewrite app_nth2 by lia. rewrite nth_skipn. f_equal. lia.
Qed.





Lemma land_page_mask (x : Z) : 0 <= x -> Z.land x (PELIB_PAGE_SIZE - 1) = x mod PELIB_PAGE_SIZE.
Proof.
  intros Hx. change (PELIB_PAGE_SIZE - 1) with (Z.ones 12).
  rewrite Z.land_ones by lia. reflexivity.
Qed.

Lemma shiftr_page (x : Z) : Z.shiftr x PELIB_PAGE_SIZE_SHIFT = x / PELIB_PAGE_SIZE.
Proof. unfold PELIB_PAGE_SIZE_SHIFT. rewrite Z.shiftr_div_pow2 by lia. reflexivity. Qed.



Lemma page_split (rva : Z) :
  0 <= rva -> rva = PELIB_PAGE_SIZE * (rva / PELIB_PAGE_SIZE) + rva mod PELIB_PAGE_SIZE
              /\ 0 <= rva mod PELIB_PAGE_SIZE < PELIB_PAGE_SIZE /\ 0 <= rva / PELIB_PAGE_SIZE.
Proof.
  intros H. unfold PELIB_PAGE_SIZE. split; [apply Z.div_mod; lia|].
  split; [apply Z.mod_pos_bound; lia|]. apply Z.div_pos; lia.
Qed.







(** ** The accessor on a loader *)


Lemma getSizeOfImageAligned_set_pages st ps :
  getSizeOfImageAligned (set_pages st ps) = getSizeOfImageAligned st.
Proof. reflexivity. Qed.




(** ** Little-endian windows of a byte map *)








(** ** The fixed-up byte map *)








(** ** Fixups on a loader *)





Lemma set_pages_twice st ps1 ps2 : set_pages (set_pages st ps1) ps2 = set_pages st ps2.
Proof. by destruct st. Qed.




















(** ** Page allocation and section mapping *)

Lemma BytesToPages_ceil x : 0 <= x -> BytesToPages x = ceil_div x PELIB_PAGE_SIZE.
Proof.
  intros Hx. unfold BytesToPages, ceil_div. rewrite shiftr_page.
  change 4095 with (PELIB_PAGE_SIZE - 1). rewrite land_page_mask by done.
  destruct (page_split x Hx) as (Hs & Hm & Hq).
  unfold PELIB_PAGE_SIZE in *. case_decide as Hr.
  - apply Z.div_unique with (x mod 4096 - 1); lia.
  - apply Z.div_unique with 4095; lia.
Qed.

Lemma getSizeOfImageAligned_nonneg st : 0 <= getSizeOfImageAligned st.
Proof.
  unfold getSizeOfImageAligned, AlignToSize, u32. apply Z.land_nonneg. left.
  apply Z.mod_pos_bound. lia.
Qed.

Lemma setValidPages_length ps idx data count :
  length (setValidPages ps idx data count) = length ps.
Proof.
  revert ps idx data. induction count as [|count IH]; intros ps idx data; [done|].
  cbn [setValidPages]. rewrite IH.
  destruct (ps !! idx); [|done]. destruct (page_setValidPage _ _); [|done].
  apply length_insert.
Qed.

Lemma setZeroPages_length ps idx count :
  length (setZeroPages ps idx count) = length ps.
Proof.
  revert ps idx. induction count as [|count IH]; intros ps idx; [done|].
  cbn [setZeroPages]. rewrite IH. destruct (ps !! idx); [|done]. apply length_insert.
Qed.

(** Mapping a section changes the pages only, and keeps their number. *)
Lemma captureImageSection_pages st fileData va vs ptr raw ch hdr :
  exists ps, captureImageSection st fileData va vs ptr raw ch hdr = set_pages st ps
    /\ length ps = length (pages st).
Proof.
  unfold captureImageSection. cbv zeta. eexists. split; [reflexivity|].
  case_decide; rewrite ?setZeroPages_length; apply setValidPages_length.
Qed.

Lemma captureImageSections_pages st fileData :
  exists ps, captureImageSections st fileData = set_pages st ps
    /\ length ps = length (pages st).
Proof.
  unfold captureImageSections. cbv zeta.
  destruct (captureImageSection_pages st fileData 0 (SizeOfHeaders (optionalHeader st)) 0
              (SizeOfHeaders (optionalHeader st)) 0 true) as (ps1 & E1 & L1).
  rewrite E1. clear E1. cbn [sections set_pages].
  generalize (sections st). intros secs.
  revert ps1 L1. induction secs as [|s secs IH]; intros ps1 L1; [by exists ps1|].
  cbn [fold_left].
  destruct (captureImageSection_pages (set_pages st ps1) fileData (sh_VirtualAddress s)
              (sh_VirtualSize s) (sh_PointerToRawData s) (sh_SizeOfRawData s)
              (sh_Characteristics s) false) as (ps2 & E2 & L2).
  rewrite E2, set_pages_twice. apply IH. rewrite L2. done.
Qed.

Lemma loadabilityChecks_set_pages cb la st ps :
  loadabilityChecks cb la (set_pages st ps) = loadabilityChecks cb la st.
Proof. reflexivity. Qed.

Lemma loadabilityChecks_setLoaderErrors cb la st errs :
  loadabilityChecks cb la (fold_left setLoaderError errs st) = loadabilityChecks cb la st.
Proof.
  revert st. induction errs as [|e errs IH]; intros st; [done|]. cbn [fold_left].
  rewrite IH. unfold setLoaderError. case_decide; reflexivity.
Qed.

Lemma loadabilityChecks_causes cb la st :
  Forall (fun e => e <> LDR_ERROR_NONE) (loadabilityChecks cb la st).
Proof.
  unfold loadabilityChecks. cbv zeta.
  repeat apply Forall_app_2; repeat case_match; repeat constructor; discriminate.
Qed.

Lemma setLoaderErrors_keep st errs :
  ldrError st <> LDR_ERROR_NONE -> fold_left setLoaderError errs st = st.
Proof.
  revert st. induction errs as [|e errs IH]; intros st H; [done|]. cbn [fold_left].
  unfold setLoaderError at 2. rewrite decide_False by done. by apply IH.
Qed.

(** A non-empty list of causes leaves a cause recorded. *)
Lemma setLoaderErrors_cause st errs :
  Forall (fun e => e <> LDR_ERROR_NONE) errs -> errs <> [] ->
  ldrError (fold_left setLoaderError errs st) <> LDR_ERROR_NONE.
Proof.
  intros Hall Hne. destruct (decide (ldrError st = LDR_ERROR_NONE)) as [H0|H0].
  - destruct errs as [|e errs]; [done|]. inversion Hall as [|? ? He _]; subst.
    cbn [fold_left]. unfold setLoaderError at 2. rewrite decide_True by done.
    rewrite setLoaderErrors_keep; [done|]. done.
  - by rewrite setLoaderErrors_keep.
Qed.

Lemma page_setValidPage_eq p data :
  (length data <= PELIB_PAGE_SIZE_N)%nat ->
  page_setValidPage p data = Some (page_of data).
Proof.
  intros Hl. unfold page_setValidPage, page_of. cbv zeta.
  rewrite decide_False by lia. do 2 f_equal.
  unfold page_writeToPage. rewrite decide_True by (unfold PELIB_PAGE_SIZE_N; lia).
  rewrite (decide_False (P := (PELIB_PAGE_SIZE_N < 0 + length data)%nat)) by lia.
  cbn [buffer]. unfold memcpy_at.
  rewrite take_0, app_nil_l, firstn_all, take_app_length. reflexivity.
Qed.






Lemma nth_replicate_0 k n : nth k (replicate n 0) 0 = 0.
Proof. revert k. induction n as [|n IH]; intros [|k]; cbn; auto. Qed.




(** Linear arithmetic with division and remainder by constants *)
Ltac zdiv := Z.div_mod_to_equations; lia.

Section SectionMapping.
Variables (st : ImageLoader) (fileData : list Z) (va vs ptr raw ch : Z).
Hypotheses (Hva : 0 <= va) (Hal : va mod PELIB_PAGE_SIZE = 0) (Hptr : 0 <= ptr)
  (Hraw : 0 < raw < vs) (Hfile : ptr + raw <= Z.of_nat (length fileData))
  (Hroom : (Z.to_nat (va / PELIB_PAGE_SIZE) + Z.to_nat (BytesToPages vs)
            <= length (pages st))%nat).



End SectionMapping.

(** * The claims *)

(** ** C1: reads outside the image *)

(** Claim C1: a read whose range starts at or past the aligned image size
    (a range of RVAs, which are unsigned, lying outside
    [[0, getSizeOfImageAligned())]) transfers 0 bytes and leaves the
    caller's buffer and every page as they were; it reaches no page at
    all, so it makes no out-of-bounds access (which the model would
    report as [None]).  The shared loop does the same for writes. *)
Theorem readImage_outside_image st buf rva n :
  getSizeOfImageAligned st <= rva ->
  readImage st buf rva n = Some (0, buf)
  /\ forall ReadWrite, readWriteImage st buf rva n ReadWrite = Some (0, buf, pages st).
Proof.
  intros H. unfold readImage, readWriteImage. cbv zeta.
  rewrite decide_False by lia. split; [reflexivity|]. intros RW. by rewrite decide_False by lia.
Qed.

Lemma readImage_outside_image_witness :
  getSizeOfImageAligned highlow_image <= 8192
  /\ readImage highlow_image (replicate 16 0) 8192 16 = Some (0, replicate 16 0)
  /\ forall ReadWrite, readWriteImage highlow_image (replicate 16 0) 8192 16 ReadWrite
                       = Some (0, replicate 16 0, pages highlow_image).
Proof.
  split; [vm_compute; discriminate|].
  apply (readImage_outside_image highlow_image (replicate 16 0) 8192 16).
  vm_compute. discriminate.
Defined.

(** ** C3: the page invariant *)

(** Claim C3: every page reached from a freshly constructed page by any
    sequence of [setValidPage], [setZeroPage] and [writeToPage] (each call
    with a defined result) is never zero and invalid at once, and when it
    is valid (neither zero nor invalid) its buffer is exactly 4096 bytes. *)
Theorem page_ops_invariant ops p :
  run_page_ops PELIB_FILE_PAGE_new ops = Some p ->
  ~ (isZeroPage p = true /\ isInvalidPage p = true)
  /\ (isZeroPage p = false -> isInvalidPage p = false -> length (buffer p) = 4096%nat).
Proof.
  intros H. apply (run_page_ops_inv ops PELIB_FILE_PAGE_new p); [|done].
  unfold page_inv. simpl. split; [intros [? _]; discriminate|]. discriminate.
Qed.

Lemma page_ops_invariant_witness :
  let ops := [OpWriteToPage [1; 2; 3] 4094; OpSetZeroPage; OpSetValidPage [5; 6];
              OpWriteToPage [9] 7] in
  let p := match run_page_ops PELIB_FILE_PAGE_new ops with
           | Some p => p | None => PELIB_FILE_PAGE_new end in
  run_page_ops PELIB_FILE_PAGE_new ops = Some p
  /\ ~ (isZeroPage p = true /\ isInvalidPage p = true)
  /\ (isZeroPage p = false -> isInvalidPage p = false -> length (buffer p) = 4096%nat).
Proof.
  intros ops p. split; [vm_compute; reflexivity|].
  apply (page_ops_invariant ops p). vm_compute. reflexivity.
Defined.

(** ** C7: the loader error is sticky *)

(** Claim C7: once the loader error holds a non-success value, every
    later sequence of [setLoaderError] calls leaves the loader unchanged,
    so [loaderError()] keeps returning that first value. *)
Theorem setLoaderError_sticky st errs :
  loaderError st <> LDR_ERROR_NONE ->
  fold_left setLoaderError errs st = st
  /\ loaderError (fold_left setLoaderError errs st) = loaderError st.
Proof.
  intros H. enough (E : fold_left setLoaderError errs st = st) by (rewrite E; done).
  induction errs as [|e errs IH]; [done|]. cbn [fold_left].
  unfold setLoaderError at 2. rewrite decide_False by done. exact IH.
Qed.

Lemma setLoaderError_sticky_witness :
  let st := set_ldrError (ImageLoader_new sample_config) LDR_ERROR_MACHINE in
  loaderError st <> LDR_ERROR_NONE
  /\ fold_left setLoaderError [LDR_ERROR_NONE; LDR_ERROR_SECTION_TABLE] st = st
  /\ loaderError (fold_left setLoaderError [LDR_ERROR_NONE; LDR_ERROR_SECTION_TABLE] st)
     = loaderError st.
Proof.
  intros st. split; [vm_compute; discriminate|].
  apply setLoaderError_sticky. vm_compute. discriminate.
Defined.

(** ** C9: the aligned size wraps in 32 bits *)

Lemma AlignToSize_page S :
  AlignToSize S PELIB_PAGE_SIZE = Z.land ((S + 4095) mod 2 ^ 32) 4294963200.
Proof. reflexivity. Qed.

(** Claim C9: for every [SizeOfImage] (a [uint32_t]) strictly above
    0xFFFFF000, [getSizeOfImageAligned()] is 0: the rounding up to the page
    size wraps modulo 2^32. *)
Theorem getSizeOfImageAligned_overflow st :
  4294963200 < getSizeOfImage st < 2 ^ 32 -> getSizeOfImageAligned st = 0.
Proof.
  unfold getSizeOfImage, getSizeOfImageAligned. intros H.
  rewrite AlignToSize_page.
  set (S := SizeOfImage (optionalHeader st)) in *.
  replace ((S + 4095) mod 2 ^ 32) with (S + 4095 - 2 ^ 32)
    by (apply Z.mod_unique with 1; lia).
  set (x := S + 4095 - 2 ^ 32).
  assert (Hx : x = Z.land x (Z.ones 12)).
  { rewrite Z.land_ones by lia. symmetry. apply Z.mod_small. subst x. lia. }
  rewrite Hx, <- Z.land_assoc. change (Z.land (Z.ones 12) 4294963200) with 0. apply Z.land_0_r.
Qed.

Lemma getSizeOfImageAligned_overflow_witness :
  let st := set_optionalHeader fresh_image
              (mkOptionalHeader 267 4194304 4096 512 4294963201 1024 0 16 []) in
  4294963200 < getSizeOfImage st < 2 ^ 32 /\ getSizeOfImageAligned st = 0.
Proof.
  intros st. split; [vm_compute; split; reflexivity|].
  apply getSizeOfImageAligned_overflow. vm_compute. split; reflexivity.
Defined.

(** ** C10: data-directory getters *)

(** Claim C10: for an index at or above [NumberOfRvaAndSizes],
    [getDataDirRva] and [getDataDirSize] return 0 without indexing the
    array; below it they return the [VirtualAddress] and [Size] of the
    entry at that index, when the array has one (an index below
    [NumberOfRvaAndSizes] but past the array reads past its end, [None]). *)
Theorem getDataDir_index oh i :
  (NumberOfRvaAndSizes oh <= Z.of_nat i ->
     getDataDirRva oh i = Some 0 /\ getDataDirSize oh i = Some 0)
  /\ (forall e, Z.of_nat i < NumberOfRvaAndSizes oh -> DataDirectory oh !! i = Some e ->
        getDataDirRva oh i = Some (VirtualAddress e) /\ getDataDirSize oh i = Some (Size e))
  /\ (Z.of_nat i < NumberOfRvaAndSizes oh -> DataDirectory oh !! i = None ->
        getDataDirRva oh i = None /\ getDataDirSize oh i = None).
Proof.
  unfold getDataDirRva, getDataDirSize. split; [|split].
  - intros H. by rewrite !decide_False by lia.
  - intros e H He. rewrite !decide_True by lia. by rewrite He.
  - intros H He. rewrite !decide_True by lia. by rewrite He.
Qed.

Lemma getDataDir_index_witness :
  (NumberOfRvaAndSizes (sample_optional_header 10) <= Z.of_nat 16 ->
     getDataDirRva (sample_optional_header 10) 16 = Some 0
     /\ getDataDirSize (sample_optional_header 10) 16 = Some 0)
  /\ (forall e, Z.of_nat 5 < NumberOfRvaAndSizes (sample_optional_header 10) ->
        DataDirectory (sample_optional_header 10) !! 5%nat = Some e ->
        getDataDirRva (sample_optional_header 10) 5 = Some (VirtualAddress e)
        /\ getDataDirSize (sample_optional_header 10) 5 = Some (Size e))
  /\ (Z.of_nat 5 < NumberOfRvaAndSizes (sample_optional_header 10) ->
        DataDirectory (sample_optional_header 10) !! 5%nat = None ->
        getDataDirRva (sample_optional_header 10) 5 = None
        /\ getDataDirSize (sample_optional_header 10) 5 = None).
Proof.
  split; [apply (getDataDir_index (sample_optional_header 10) 16)|].
  apply (getDataDir_index (sample_optional_header 10) 5).
Defined.

(** ** C2: relocating there and back *)




(** ** C6: a HIGHLOW fixup *)



Lemma getSizeOfImageAligned_setLoaderErrors st errs :
  getSizeOfImageAligned (fold_left setLoaderError errs st) = getSizeOfImageAligned st.
Proof.
  revert st. induction errs as [|e errs IH]; intros st; [done|]. cbn [fold_left].
  rewrite IH. unfold setLoaderError. case_decide; reflexivity.
Qed.

(** C4: after every successful [Load], the virtual image has
    ceil(getSizeOfImageAligned() / 4096) pages, with or without the
    sections mapped. *)
Theorem Load_page_count cb la st0 f hdrOnly st :
  Load cb la st0 f hdrOnly = (ERROR_NONE, st) ->
  length (pages st) = Z.to_nat (ceil_div (getSizeOfImageAligned st) PELIB_PAGE_SIZE).
Proof.
  unfold Load. cbv zeta.
  destruct (pe_dosHeaderValid f); [|discriminate]. destruct (pe_ntHeadersValid f); [|discriminate].
  cbn [negb].
  set (st2 := fold_left setLoaderError _ (captureHeaders st0 f)).
  set (ps := replicate _ PELIB_FILE_PAGE_new).
  assert (Hps : length ps = Z.to_nat (ceil_div (getSizeOfImageAligned st2) PELIB_PAGE_SIZE)).
  { unfold ps. rewrite length_replicate, BytesToPages_ceil; [done|].
    apply getSizeOfImageAligned_nonneg. }
  destruct hdrOnly; intros H; inversion H; subst st; clear H.
  - done.
  - destruct (captureImageSections_pages (set_pages st2 ps) (pe_fileData f)) as (ps' & E & L).
    rewrite E, !getSizeOfImageAligned_set_pages. exact (eq_trans L Hps).
Qed.

Lemma Load_page_count_witness :
  Load (fun _ => false) (fun _ => false) (ImageLoader_new sample_config) sample_file false
    = (ERROR_NONE, snd (Load (fun _ => false) (fun _ => false)
                          (ImageLoader_new sample_config) sample_file false))
  /\ length (pages (snd (Load (fun _ => false) (fun _ => false)
                          (ImageLoader_new sample_config) sample_file false)))
     = Z.to_nat (ceil_div (getSizeOfImageAligned
         (snd (Load (fun _ => false) (fun _ => false)
                 (ImageLoader_new sample_config) sample_file false))) PELIB_PAGE_SIZE).
Proof.
  assert (H : Load (fun _ => false) (fun _ => false) (ImageLoader_new sample_config) sample_file false
    = (ERROR_NONE, snd (Load (fun _ => false) (fun _ => false)
                          (ImageLoader_new sample_config) sample_file false)))
    by (vm_compute; reflexivity).
  split; [exact H|]. exact (Load_page_count _ _ _ _ _ _ H).
Defined.

(** C8: whenever [Load] leaves an image that [isImageLoadable()] rejects,
    [loaderError()] holds a cause other than [LDR_ERROR_NONE]. *)
Theorem Load_not_loadable_has_error cb la st0 f hdrOnly r st :
  Load cb la st0 f hdrOnly = (r, st) ->
  isImageLoadable cb la st = false ->
  loaderError st <> LDR_ERROR_NONE.
Proof.
  unfold Load, loaderError. cbv zeta.
  destruct (pe_dosHeaderValid f); cbn [negb].
  2:{ intros H _. inversion H; subst. cbn. unfold setLoaderError.
      case_decide; [discriminate|done]. }
  destruct (pe_ntHeadersValid f); cbn [negb].
  2:{ intros H _. inversion H; subst. cbn. unfold setLoaderError.
      case_decide; [discriminate|done]. }
  set (st1 := captureHeaders st0 f).
  set (st2 := fold_left setLoaderError _ st1).
  set (ps := replicate _ PELIB_FILE_PAGE_new).
  assert (Hl : forall st', (st' = set_pages st2 ps \/
                 exists ps', st' = set_pages (set_pages st2 ps) ps') ->
                 isImageLoadable cb la st' = false -> ldrError st' <> LDR_ERROR_NONE).
  { intros st' Hst' Hnl.
    assert (E : ldrError st' = ldrError st2 /\
                loadabilityChecks cb la st' = loadabilityChecks cb la st1).
    { destruct Hst' as [-> | [ps' ->]]; split; try reflexivity;
        rewrite ?loadabilityChecks_set_pages; apply loadabilityChecks_setLoaderErrors. }
    destruct E as [-> Ec]. unfold isImageLoadable in Hnl. rewrite Ec in Hnl.
    apply bool_decide_eq_false in Hnl.
    apply setLoaderErrors_cause; [apply loadabilityChecks_causes|done]. }
  destruct hdrOnly; intros H; inversion H; subst; clear H; apply Hl.
  - by left.
  - right. destruct (captureImageSections_pages (set_pages st2 ps) (pe_fileData f)) as (ps' & E & _).
    by exists ps'.
Qed.

Lemma Load_not_loadable_has_error_witness :
  let cfg := mkLoaderConfiguration false false true false false in
  let st := snd (Load (fun _ => true) (fun _ => false) (ImageLoader_new cfg) sample_file false) in
  isImageLoadable (fun _ => true) (fun _ => false) st = false
  /\ loaderError st = LDR_ERROR_NOT_LOADABLE
  /\ loaderError st <> LDR_ERROR_NONE.
Proof.
  intros cfg st.
  assert (Hl : isImageLoadable (fun _ => true) (fun _ => false) st = false)
    by (vm_compute; reflexivity).
  split; [exact Hl|]. split; [vm_compute; reflexivity|].
  exact (Load_not_loadable_has_error (fun _ => true) (fun _ => false) (ImageLoader_new cfg)
           sample_file false (fst (Load (fun _ => true) (fun _ => false) (ImageLoader_new cfg)
                                    sample_file false)) st
           (surjective_pairing _) Hl).
Defined.




(** * Further properties of the header's inline code *)

(** ** AlignToSize *)

(** The mask [~(2^k - 1)] clears the low [k] bits of a 32-bit value. *)
Lemma land_align_mask y k :
  0 <= y < 2 ^ 32 -> 0 <= k <= 32 ->
  Z.land y (Z.lxor (2 ^ k - 1) (2 ^ 32 - 1)) = 2 ^ k * (y / 2 ^ k).
Proof.
  intros Hy Hk. rewrite Z.mul_comm, <- Z.shiftl_mul_pow2, <- Z.shiftr_div_pow2 by lia.
  replace (2 ^ k - 1) with (Z.ones k) by (rewrite Z.ones_equiv; lia).
  replace (2 ^ 32 - 1) with (Z.ones 32) by (rewrite Z.ones_equiv; lia).
  apply Z.bits_inj'. intros i Hi.
  rewrite Z.land_spec, Z.lxor_spec, !Z.testbit_ones_nonneg by lia.
  destruct (decide (i < k)).
  - rewrite Z.shiftl_spec_low by lia. rewrite (proj2 (Z.ltb_lt i k)) by lia.
    rewrite (proj2 (Z.ltb_lt i 32)) by lia. apply andb_false_r.
  - rewrite Z.shiftl_spec by lia. rewrite Z.shiftr_spec by lia.
    replace (i - k + k) with i by lia. rewrite (proj2 (Z.ltb_ge i k)) by lia.
    destruct (decide (i < 32)).
    + rewrite (proj2 (Z.ltb_lt i 32)) by lia. apply andb_true_r.
    + rewrite (proj2 (Z.ltb_ge i 32)) by lia. rewrite andb_false_r.
      rewrite <- (Z.mod_small y (2 ^ 32)) by lia.
      symmetry. apply Z.mod_pow2_bits_high. lia.
Qed.

(** AlignToSize on a power-of-two alignment, without its wrap-around made
    explicit: the sum is taken modulo 2^32, then rounded down. *)
Lemma AlignToSize_pow2 x k :
  0 <= x < 2 ^ 32 -> 0 <= k <= 31 ->
  AlignToSize x (2 ^ k) = 2 ^ k * (((x + 2 ^ k - 1) mod 2 ^ 32) / 2 ^ k).
Proof.
  intros Hx Hk. assert (Hp : 1 <= 2 ^ k <= 2 ^ 31).
  { split; [apply (Z.pow_le_mono_r 2 0 k)|apply Z.pow_le_mono_r]; lia. }
  unfold AlignToSize, u32_not, u32.
  rewrite (Z.mod_small (2 ^ k - 1)) by lia.
  replace (x + (2 ^ k - 1)) with (x + 2 ^ k - 1) by lia.
  apply land_align_mask; [apply Z.mod_pos_bound; lia | lia].
Qed.

(** X1: when the sum does not wrap, [AlignToSize(x, 2^k)] is the least
    multiple of [2^k] that is at least [x]. *)
Theorem AlignToSize_round_up x k :
  0 <= x -> 0 <= k <= 31 -> x + 2 ^ k - 1 < 2 ^ 32 ->
  AlignToSize x (2 ^ k) mod 2 ^ k = 0
  /\ x <= AlignToSize x (2 ^ k) < x + 2 ^ k.
Proof.
  intros Hx Hk Hs. assert (Hp : 1 <= 2 ^ k).
  { apply (Z.pow_le_mono_r 2 0 k); lia. }
  rewrite AlignToSize_pow2 by lia. rewrite (Z.mod_small (x + 2 ^ k - 1)) by lia.
  split; [rewrite Z.mul_comm; apply Z.mod_mul; lia|].
  pose proof (Z.mul_div_le (x + 2 ^ k - 1) (2 ^ k)).
  pose proof (Z.mod_pos_bound (x + 2 ^ k - 1) (2 ^ k)).
  pose proof (Z.div_mod (x + 2 ^ k - 1) (2 ^ k)). lia.
Qed.

Lemma AlignToSize_round_up_witness :
  AlignToSize 4097 (2 ^ 9) mod 2 ^ 9 = 0 /\ 4097 <= AlignToSize 4097 (2 ^ 9) < 4097 + 2 ^ 9
  /\ AlignToSize 4097 (2 ^ 9) = 4608.
Proof.
  split; [apply (AlignToSize_round_up 4097 9); lia|]. split.
  - apply (AlignToSize_round_up 4097 9); lia.
  - reflexivity.
Defined.

(** X2: whatever the 32-bit size, [AlignToSize(x, 2^k)] is a multiple of
    [2^k] that fits in 32 bits; when [x + 2^k - 1] wraps past 2^32 it is 0. *)
Theorem AlignToSize_wraps x k :
  0 <= x < 2 ^ 32 -> 0 <= k <= 31 ->
  AlignToSize x (2 ^ k) mod 2 ^ k = 0
  /\ 0 <= AlignToSize x (2 ^ k) < 2 ^ 32
  /\ (2 ^ 32 <= x + 2 ^ k - 1 -> AlignToSize x (2 ^ k) = 0).
Proof.
  intros Hx Hk. assert (Hp : 1 <= 2 ^ k <= 2 ^ 31).
  { split; [apply (Z.pow_le_mono_r 2 0 k)|apply Z.pow_le_mono_r]; lia. }
  rewrite AlignToSize_pow2 by lia.
  set (y := (x + 2 ^ k - 1) mod 2 ^ 32).
  assert (Hy : 0 <= y < 2 ^ 32) by (apply Z.mod_pos_bound; lia).
  pose proof (Z.mul_div_le y (2 ^ k)).
  assert (0 <= y / 2 ^ k) by (apply Z.div_pos; lia).
  split; [rewrite Z.mul_comm; apply Z.mod_mul; lia|]. split; [nia|].
  intros Hw. unfold y. replace ((x + 2 ^ k - 1) mod 2 ^ 32) with (x + 2 ^ k - 1 - 2 ^ 32)
    by (apply Z.mod_unique with 1; lia).
  rewrite Z.div_small by lia. lia.
Qed.

Lemma AlignToSize_wraps_witness :
  AlignToSize 4294967000 (2 ^ 9) = 0.
Proof.
  apply (AlignToSize_wraps 4294967000 9); lia.
Defined.

(** X3: aligning twice to the same power of two is aligning once. *)
Theorem AlignToSize_idempotent x k :
  0 <= x < 2 ^ 32 -> 0 <= k <= 31 ->
  AlignToSize (AlignToSize x (2 ^ k)) (2 ^ k) = AlignToSize x (2 ^ k).
Proof.
  intros Hx Hk. assert (Hp : 1 <= 2 ^ k <= 2 ^ 31).
  { split; [apply (Z.pow_le_mono_r 2 0 k)|apply Z.pow_le_mono_r]; lia. }
  destruct (AlignToSize_wraps x k Hx Hk) as (Hm & Hr & _).
  set (r := AlignToSize x (2 ^ k)) in *.
  assert (H32 : 2 ^ 32 = 2 ^ k * 2 ^ (32 - k)) by (rewrite <- Z.pow_add_r; f_equal; lia).
  pose proof (Z.div_mod r (2 ^ k) ltac:(lia)) as H. rewrite Hm, Z.add_0_r in H.
  assert (Hq : r / 2 ^ k < 2 ^ (32 - k)) by nia.
  assert (Hs : r + 2 ^ k - 1 < 2 ^ 32) by nia.
  rewrite AlignToSize_pow2 by lia. rewrite (Z.mod_small (r + 2 ^ k - 1)) by lia.
  rewrite H at 1. replace (2 ^ k * (r / 2 ^ k) + 2 ^ k - 1)
    with ((2 ^ k - 1) + (r / 2 ^ k) * 2 ^ k) by ring.
  rewrite Z.div_add by lia. rewrite Z.div_small by lia. lia.
Qed.

Lemma AlignToSize_idempotent_witness :
  AlignToSize (AlignToSize 1000 (2 ^ 9)) (2 ^ 9) = AlignToSize 1000 (2 ^ 9).
Proof. apply (AlignToSize_idempotent 1000 9); lia. Defined.

(** X4: an alignment of 0 makes the mask [~(0 - 1)] zero: AlignToSize
    returns 0 for every size. *)
Theorem AlignToSize_zero_alignment x :
  AlignToSize x 0 = 0.
Proof.
  unfold AlignToSize, u32_not. change (u32 (0 - 1)) with (2 ^ 32 - 1).
  rewrite Z.lxor_nilpotent. apply Z.land_0_r.
Qed.

(** ** BytesToPages and the aligned image size *)

(** X5: for a 32-bit byte count, [BytesToPages] is the count divided by the
    page size rounded up: enough pages to hold it and fewer than one page
    more, never more than 2^20 pages. *)
Theorem BytesToPages_bounds x :
  0 <= x < 2 ^ 32 ->
  BytesToPages x = (x + PELIB_PAGE_SIZE - 1) / PELIB_PAGE_SIZE
  /\ PELIB_PAGE_SIZE * BytesToPages x - PELIB_PAGE_SIZE < x <= PELIB_PAGE_SIZE * BytesToPages x
  /\ BytesToPages x <= 2 ^ 20.
Proof.
  intros Hx. rewrite BytesToPages_ceil by lia. unfold ceil_div, PELIB_PAGE_SIZE.
  split; [reflexivity|]. zdiv.
Qed.

Lemma BytesToPages_bounds_witness :
  BytesToPages 4097 = (4097 + PELIB_PAGE_SIZE - 1) / PELIB_PAGE_SIZE
  /\ BytesToPages 4097 = 2.
Proof. split; [apply (BytesToPages_bounds 4097); lia | reflexivity]. Defined.

(** X6: when [SizeOfImage] is at most 0xFFFFF000, [getSizeOfImageAligned()]
    is [SizeOfImage] rounded up to a whole page, and [BytesToPages] of it
    counts exactly its pages. *)
Theorem getSizeOfImageAligned_round_up st :
  0 <= getSizeOfImage st <= 4294963200 ->
  getSizeOfImageAligned st mod PELIB_PAGE_SIZE = 0
  /\ getSizeOfImage st <= getSizeOfImageAligned st < getSizeOfImage st + PELIB_PAGE_SIZE
  /\ PELIB_PAGE_SIZE * BytesToPages (getSizeOfImageAligned st) = getSizeOfImageAligned st.
Proof.
  unfold getSizeOfImage, getSizeOfImageAligned. intros H.
  set (S := SizeOfImage (optionalHeader st)) in *.
  assert (E : AlignToSize S PELIB_PAGE_SIZE = 4096 * ((S + 4095) / 4096)).
  { change PELIB_PAGE_SIZE with (2 ^ 12). rewrite AlignToSize_pow2 by lia.
    rewrite (Z.mod_small (S + 2 ^ 12 - 1)) by lia. change (2 ^ 12) with 4096.
    now replace (S + 4096 - 1) with (S + 4095) by lia. }
  rewrite E. rewrite BytesToPages_ceil by zdiv. unfold ceil_div, PELIB_PAGE_SIZE. zdiv.
Qed.

Lemma getSizeOfImageAligned_round_up_witness :
  getSizeOfImageAligned highlow_image = 8192
  /\ BytesToPages (getSizeOfImageAligned highlow_image) = 2.
Proof.
  destruct (getSizeOfImageAligned_round_up highlow_image) as (_ & _ & H3);
    [vm_compute; split; intros Hc; discriminate Hc|].
  split; [reflexivity|]. vm_compute. reflexivity.
Defined.

(** ** signExtend32To64 *)

(** X7: [signExtend32To64] keeps the low 32 bits of its argument and fills
    the high 32 bits with its bit 31: zeros below 0x80000000, ones from it. *)
Theorem signExtend32To64_spec v :
  0 <= v < 2 ^ 32 ->
  0 <= signExtend32To64 v < 2 ^ 64
  /\ signExtend32To64 v mod 2 ^ 32 = v
  /\ signExtend32To64 v / 2 ^ 32 = (if decide (v < 2 ^ 31) then 0 else 2 ^ 32 - 1).
Proof.
  intros Hv. unfold signExtend32To64. cbv zeta.
  change (2 ^ 64) with 18446744073709551616 in *. change (2 ^ 32) with 4294967296 in *.
  change (2 ^ 31) with 2147483648 in *.
  case_decide.
  - rewrite Z.mod_small by lia. zdiv.
  - replace ((v - 4294967296) mod 18446744073709551616) with (v - 4294967296 + 18446744073709551616)
      by (apply Z.mod_unique with (-1); lia).
    zdiv.
Qed.

Lemma signExtend32To64_spec_witness :
  signExtend32To64 4294967295 = 18446744073709551615
  /\ signExtend32To64 4294967295 mod 2 ^ 32 = 4294967295.
Proof.
  split; [reflexivity|]. apply (signExtend32To64_spec 4294967295). lia.
Defined.

(** ** PELIB_FILE_PAGE::writeToPage and setValidPage *)

Lemma nth_vector_resize n b j :
  (j < n)%nat -> nth j (vector_resize n b) 0 = nth j b 0.
Proof.
  intros Hj. unfold vector_resize. destruct (decide (j < length b)%nat).
  - rewrite app_nth1 by (rewrite length_take; lia).
    rewrite !nth_lookup, lookup_take_lt by lia. reflexivity.
  - rewrite app_nth2 by (rewrite length_take; lia).
    rewrite nth_replicate_0. symmetry. apply nth_overflow. lia.
Qed.

(** X8: [writeToPage(data, offset, length)] never changes the page's flags.
    At an offset past the page it does nothing; otherwise the buffer becomes
    one page long, whatever its size before, the bytes from [offset] on are
    those of [data], cut at the page end, and every other byte of the page
    keeps its old value (0 where the old buffer was shorter). *)
Theorem page_writeToPage_bytes p data off :
  isInvalidPage (page_writeToPage p data off) = isInvalidPage p
  /\ isZeroPage (page_writeToPage p data off) = isZeroPage p
  /\ ((PELIB_PAGE_SIZE_N <= off)%nat -> page_writeToPage p data off = p)
  /\ ((off < PELIB_PAGE_SIZE_N)%nat ->
      length (buffer (page_writeToPage p data off)) = PELIB_PAGE_SIZE_N
      /\ forall j, (j < PELIB_PAGE_SIZE_N)%nat ->
           nth j (buffer (page_writeToPage p data off)) 0 =
           if decide (off <= j < off + length data)%nat then nth (j - off) data 0
           else nth j (buffer p) 0).
Proof.
  split; [apply page_writeToPage_flags|]. split; [apply page_writeToPage_flags|].
  split; [intros H; unfold page_writeToPage; by rewrite decide_False by lia|].
  intros Hoff. split; [by apply page_writeToPage_length|].
  intros j Hj. unfold page_writeToPage. rewrite decide_True by done. cbv zeta.
  cbn [buffer].
  set (buf := if decide (length (buffer p) = PELIB_PAGE_SIZE_N) then buffer p
              else vector_resize PELIB_PAGE_SIZE_N (buffer p)).
  assert (Hbuf : length buf = PELIB_PAGE_SIZE_N).
  { unfold buf. case_decide; [done|]. unfold vector_resize.
    rewrite length_app, length_take, length_replicate. unfold PELIB_PAGE_SIZE_N. lia. }
  assert (Hnb : nth j buf 0 = nth j (buffer p) 0).
  { unfold buf. case_decide; [done|]. by apply nth_vector_resize. }
  set (len := if decide (PELIB_PAGE_SIZE_N < off + length data)%nat
              then (PELIB_PAGE_SIZE_N - off)%nat else length data).
  assert (Hlen : (off + len <= PELIB_PAGE_SIZE_N)%nat /\
                 (off + length data <= PELIB_PAGE_SIZE_N -> len = length data)%nat /\
                 (PELIB_PAGE_SIZE_N < off + length data -> len = PELIB_PAGE_SIZE_N - off)%nat).
  { unfold len. case_decide; lia. }
  rewrite nth_memcpy_at by (rewrite length_take; lia).
  rewrite length_take.
  destruct (decide (off <= j < off + length data)%nat).
  - rewrite decide_True by lia.
    rewrite !nth_lookup, lookup_take_lt by lia. reflexivity.
  - rewrite decide_False by lia. exact Hnb.
Qed.

Lemma page_writeToPage_bytes_witness :
  nth 4097 (buffer (page_writeToPage PELIB_FILE_PAGE_new [1; 2; 3] 4095)) 0 = 0
  /\ nth 4095 (buffer (page_writeToPage PELIB_FILE_PAGE_new [1; 2; 3] 4095)) 0 = 1.
Proof.
  destruct (page_writeToPage_bytes PELIB_FILE_PAGE_new [1; 2; 3] 4095) as (_ & _ & _ & H).
  split; [vm_compute; reflexivity|].
  destruct H as [_ H]; [unfold PELIB_PAGE_SIZE_N; lia|].
  rewrite H by (unfold PELIB_PAGE_SIZE_N; lia). reflexivity.
Defined.

(** X9: [setValidPage(data, length)] with at most one page of data makes
    the page valid and non-zero, whatever it was before, with a buffer
    holding [data] then zeros up to the page size. *)
Theorem page_setValidPage_result p data :
  (length data <= PELIB_PAGE_SIZE_N)%nat ->
  page_setValidPage p data
    = Some (mkPage (data ++ replicate (PELIB_PAGE_SIZE_N - length data) 0) false false).
Proof. intros H. by apply page_setValidPage_eq. Qed.

Lemma page_setValidPage_result_witness :
  page_setValidPage (mkPage [] false true) [7; 7]
    = Some (mkPage ([7; 7] ++ replicate (PELIB_PAGE_SIZE_N - 2) 0) false false).
Proof.
  apply (page_setValidPage_result (mkPage [] false true) [7; 7]).
  unfold PELIB_PAGE_SIZE_N. cbn. lia.
Defined.

